(** * eGFR estimator and stage chart renderer (eGRF.py)

    A shallow embedding of the two functions of [eGRF.py],
    [calculate_egfr] and [plot_kidney_disease_stages_with_correct_format],
    and the properties of them that the specification states.

    Conventions of the embedding.
    - A Python [float] (and an [int] used as a number) is a real number of
      [R].  What Python adds to the real operations is kept: [x ** y] raises
      [ZeroDivisionError] for a zero base and a negative exponent, and gives
      a [complex] for a negative base and an exponent that is not an
      integer.  The estimator is given at two levels.  [calculate_egfr]
      computes exactly: rounding, overflow and underflow of IEEE doubles are
      left out.  [calculate_egfr_double] keeps the range of a double as
      well: infinities and NaN are values, a power beyond the range raises
      [OverflowError], a result below the smallest double is [0.0]; only
      the rounding inside the range is left out.  Where nothing leaves the
      range the two agree.
    - A Python [str] is a [string]; [str.lower] acts on the letters A..Z.
      No character outside ASCII lowers to a letter of "male", "female" or
      "african-american", so the comparisons of the program are unchanged by
      that restriction.
    - An exception is a value of [exn], a call returns a [result].
    - The implicit global canvas of [matplotlib.pyplot] is a list of drawing
      commands threaded through the renderer. *)

From Stdlib Require Import Reals Lra Lia ZArith List Sorted String Ascii Bool.
Import ListNotations.

Local Open Scope string_scope.

(* ===================================================================== *)
(** ** Strings: [str.lower] and equality up to letter case               *)
(* ===================================================================== *)

Module PyStr.

Definition is_upper (c : ascii) : bool :=
  let n := nat_of_ascii c in (65 <=? n)%nat && (n <=? 90)%nat.

(** [ch.lower()] on one character. *)
Definition lower_ascii (c : ascii) : ascii :=
  if is_upper c then ascii_of_nat (nat_of_ascii c + 32) else c.

(** [s.lower()]. *)
Fixpoint lower (s : string) : string :=
  match s with
  | EmptyString => EmptyString
  | String c s' => String (lower_ascii c) (lower s')
  end.

(** Two characters are the same letter when they are equal or when one is
    a capital and the other the small letter 32 code points above it.
    This is stated without [lower_ascii]. *)
Definition same_letter (a b : ascii) : bool :=
  Ascii.eqb a b
  || (is_upper a && (nat_of_ascii b =? nat_of_ascii a + 32)%nat)
  || (is_upper b && (nat_of_ascii a =? nat_of_ascii b + 32)%nat).

(** Case-insensitive equality of two strings, letter by letter. *)
Fixpoint eq_ignore_case (s t : string) : bool :=
  match s, t with
  | EmptyString, EmptyString => true
  | String a s', String b t' => same_letter a b && eq_ignore_case s' t'
  | _, _ => false
  end.

(** All 256 characters, for exhaustive checks. *)
Definition all_ascii : list ascii := map ascii_of_nat (seq 0 256).

(** A string in small letters is its own [lower]. *)
Definition lowercase (s : string) : Prop := lower s = s.

End PyStr.

(* ===================================================================== *)
(** ** Python values, exceptions and arithmetic                          *)
(* ===================================================================== *)

Local Open Scope R_scope.

(** The exceptions the two functions can raise. *)
Inductive exn : Type :=
| ValueError (msg : string)
| ZeroDivisionError
| IndexError
| OverflowError.

Inductive result (A : Type) : Type :=
| Ok (a : A)
| Raise (e : exn).
Arguments Ok {A} a.
Arguments Raise {A} e.

Definition rbind {A B : Type} (r : result A) (f : A -> result B) : result B :=
  match r with
  | Ok a => f a
  | Raise e => Raise e
  end.

Definition rmap {A B : Type} (f : A -> B) (r : result A) : result B :=
  rbind r (fun a => Ok (f a)).

Declare Scope result_scope.
Delimit Scope result_scope with result.
Notation "x <- r ;; k" := (rbind r (fun x => k))
  (at level 61, r at next level, right associativity) : result_scope.

(** A Python number: a [float] or a [complex]. *)
Inductive pynum : Type :=
| PyFloat (x : R)
| PyComplex (re im : R).

Definition to_complex (v : pynum) : R * R :=
  match v with
  | PyFloat x => (x, 0)
  | PyComplex re im => (re, im)
  end.

(** [v * w]: the product of two floats is a float; when one side is complex
    the other is promoted and the complex product is taken. *)
Definition py_mul (v w : pynum) : pynum :=
  match v, w with
  | PyFloat x, PyFloat y => PyFloat (x * y)
  | _, _ =>
      let '(a, b) := to_complex v in
      let '(c, d) := to_complex w in
      PyComplex (a * c - b * d) (a * d + b * c)
  end.

(** [x / y] on floats. *)
Definition py_div (x y : R) : result R :=
  if Req_dec_T y 0 then Raise ZeroDivisionError else Ok (x / y).

(** Whether a float holds an integer ([y == floor(y)]). *)
Definition is_integral (y : R) : bool :=
  if Req_dec_T (IZR (Int_part y)) y then true else false.

(** [x ** y] on floats (float_pow):
    - anything to the power 0 is 1;
    - 0 to a negative power raises [ZeroDivisionError], to a positive one is 0;
    - a negative base to a power that is not an integer is the complex
      principal value [|x|^y * (cos (pi y) + i sin (pi y))];
    - a negative base to an integer power is the signed real power;
    - a positive base gives the real power. *)
Definition py_pow (x y : R) : result pynum :=
  if Req_dec_T y 0 then Ok (PyFloat 1)
  else if Req_dec_T x 0 then
    if Rlt_dec y 0 then Raise ZeroDivisionError else Ok (PyFloat 0)
  else if Rlt_dec x 0 then
    if is_integral y then Ok (PyFloat (powerRZ x (Int_part y)))
    else Ok (PyComplex (Rpower (- x) y * cos (PI * y))
                       (Rpower (- x) y * sin (PI * y)))
  else Ok (PyFloat (Rpower x y)).

(* ===================================================================== *)
(** ** The estimator: [calculate_egfr]                                   *)
(* ===================================================================== *)

Import PyStr.
Local Open Scope result_scope.

(** The four formula constants. [coeff] is a Python [int]. *)
Record constants : Type := Constants {
  k : R;
  alpha : R;
  coeff : Z;
  race_factor : R
}.

(** The one error of the program. *)
Definition sex_error : exn := ValueError "Sex must be 'male' or 'female'.".

(** The default of the [race] parameter. *)
Definition default_race : string := "non-african-american".

(** Lines 13-24 of [calculate_egfr]: the branch on [sex.lower()] that sets
    [k], [alpha] and [coeff] or raises, then [race_factor]. *)
Definition calculate_egfr_constants (creatinine : R) (sex race : string)
  : result constants :=
  kac <- (if lower sex =? "male" then
            let k := 0.9 in
            let alpha := if Rle_dec creatinine k then -0.411 else -1.209 in
            let coeff := 141%Z in
            Ok (k, alpha, coeff)
          else if lower sex =? "female" then
            let k := 0.7 in
            let alpha := if Rle_dec creatinine k then -0.329 else -1.209 in
            let coeff := 144%Z in
            Ok (k, alpha, coeff)
          else Raise sex_error) ;;
  let '(k, alpha, coeff) := kac in
  let race_factor :=
    if lower race =? "african-american" then 1.159 else 1.0 in
  Ok (Constants k alpha coeff race_factor).

(** Line 26: [coeff * (creatinine / k) ** alpha * (0.993 ** age) * race_factor],
    evaluated left to right. *)
Definition egfr_expression (cs : constants) (creatinine age : R)
  : result pynum :=
  q <- py_div creatinine (k cs) ;;
  p <- py_pow q (alpha cs) ;;
  a <- py_pow 0.993 age ;;
  Ok (py_mul (py_mul (py_mul (PyFloat (IZR (coeff cs))) p) a)
             (PyFloat (race_factor cs))).

(** [calculate_egfr(creatinine, age, sex, race)]. *)
Definition calculate_egfr (creatinine age : R) (sex race : string)
  : result pynum :=
  cs <- calculate_egfr_constants creatinine sex race ;;
  egfr_expression cs creatinine age.

(* ===================================================================== *)
(** ** The renderer: [plot_kidney_disease_stages_with_correct_format]    *)
(* ===================================================================== *)

(** A formatted string keeps its template: literal text and the values
    substituted, each with its format ([{x:.2f}] is [Fixed 2 x], [{x}] of a
    number is [Num x] or [Int n], [{s}] of a string is [Str s]). *)
Inductive piece : Type :=
| Lit (s : string)
| Fixed (digits : nat) (x : R)
| Num (x : R)
| Int (n : Z)
| Str (s : string).

Definition text : Type := list piece.

(** The calls made on [matplotlib.pyplot], with their arguments. *)
Inductive draw : Type :=
| Barh (y : string) (width left : Z) (color edgecolor : string) (opacity : R)
| Axvline (x : R) (color linestyle : string) (label : text)
| Text (x : R) (y : Z) (s : text) (color : string) (fontsize : Z)
       (va : string)
| Figtext (x y : R) (s : text) (wrap : bool) (horizontalalignment : string)
          (fontsize : Z)
| Title (s : string)
| Xlabel (s : string)
| Ylabel (s : string)
| Legend (loc : string) (bbox_to_anchor : R * R) (fontsize ncol : Z)
         (frameon : bool)
| Grid (axis linestyle : string) (opacity : R)
| TightLayout
| Show.

(** The global canvas: the calls made so far, oldest first. *)
Definition canvas : Type := list draw.

(** A computation that draws on the canvas and may raise. The canvas it
    leaves behind is kept when it raises. *)
Definition plt (A : Type) : Type := canvas -> canvas * result A.

Definition pret {A : Type} (a : A) : plt A := fun cv => (cv, Ok a).

Definition pbind {A B : Type} (m : plt A) (f : A -> plt B) : plt B :=
  fun cv =>
    match m cv with
    | (cv', Ok a) => f a cv'
    | (cv', Raise e) => (cv', Raise e)
    end.

Definition lift {A : Type} (r : result A) : plt A := fun cv => (cv, r).

Definition emit (d : draw) : plt unit := fun cv => ((cv ++ [d])%list, Ok tt).

Declare Scope plt_scope.
Delimit Scope plt_scope with plt.
Notation "x <- m ;; k" := (pbind m (fun x => k))
  (at level 61, m at next level, right associativity) : plt_scope.
Notation "m ;; k" := (pbind m (fun _ => k))
  (at level 61, right associativity) : plt_scope.

(** [l[i]], which raises [IndexError] out of range. *)
Definition index {A : Type} (l : list A) (i : nat) : result A :=
  match nth_error l i with
  | Some x => Ok x
  | None => Raise IndexError
  end.

(** [range(n)]. *)
Definition range (n : nat) : list nat := seq 0 n.

(** [for x in l: body(x)]. *)
Fixpoint for_each {A : Type} (l : list A) (body : A -> plt unit) : plt unit :=
  match l with
  | [] => pret tt
  | x :: l' => pbind (body x) (fun _ => for_each l' body)
  end.

Definition stages : list string :=
  [ "Stage 5: Kidney Failure";
    "Stage 4: Severe Reduction";
    "Stage 3b: Moderate-to-Severe Reduction";
    "Stage 3a: Mild-to-Moderate Reduction";
    "Stage 2: Mild Reduction";
    "Stage 1: Normal or High Function" ].

Definition thresholds : list Z := [0; 15; 30; 45; 60; 90; 120]%Z.

Definition colors : list string :=
  [ "darkred"; "red"; "orange"; "yellow"; "lime"; "green" ].

Definition nl : string := String (ascii_of_nat 10) EmptyString.

(** Lines 52-60: one [barh] per stage. *)
Definition draw_bands : plt unit :=
  for_each (range (List.length thresholds - 1)) (fun i =>
    (y <- lift (index stages i) ;;
     hi <- lift (index thresholds (i + 1)) ;;
     lo <- lift (index thresholds i) ;;
     left <- lift (index thresholds i) ;;
     color <- lift (index colors i) ;;
     emit (Barh y (hi - lo) left color "black" 0.7))%plt).

(** Lines 72-83: the constants, derived a second time. *)
Definition plot_constants (creatinine : R) (sex race : string)
  : result constants :=
  kca <- (if lower sex =? "male" then
            let k := 0.9 in
            let coeff := 141%Z in
            let alpha := if Rle_dec creatinine k then -0.411 else -1.209 in
            Ok (k, coeff, alpha)
          else if lower sex =? "female" then
            let k := 0.7 in
            let coeff := 144%Z in
            let alpha := if Rle_dec creatinine k then -0.329 else -1.209 in
            Ok (k, coeff, alpha)
          else Raise sex_error) ;;
  let '(k, coeff, alpha) := kca in
  let race_factor :=
    if lower race =? "african-american" then 1.159 else 1.0 in
  Ok (Constants k alpha coeff race_factor).

(** Lines 85-94. *)
Definition constants_info (cs : constants) (creatinine age : R) (sex : string)
  : text :=
  [ Lit ("Constants:" ++ nl);
    Lit "- "; Int (coeff cs); Lit (": Scaling factor" ++ nl);
    Lit "- "; Fixed 2 creatinine; Lit (": Serum creatinine (mg/dL)" ++ nl);
    Lit "- "; Fixed 2 (k cs); Lit ": Reference creatinine for "; Str sex;
      Lit nl;
    Lit "- "; Fixed 3 (alpha cs); Lit (": Exponent (based on creatinine)" ++ nl);
    Lit ("- 0.993: Age adjustment factor" ++ nl);
    Lit "- "; Num age; Lit (": Age in years" ++ nl);
    Lit "- "; Fixed 3 (race_factor cs); Lit (": Race adjustment factor" ++ nl) ].

(** Line 97. *)
Definition formula (cs : constants) (creatinine age : R) : text :=
  [ Lit "eGFR = "; Int (coeff cs); Lit " × ("; Fixed 2 creatinine; Lit "/";
    Fixed 2 (k cs); Lit ")^("; Fixed 3 (alpha cs); Lit ") × (0.993^"; Num age;
    Lit ") × "; Fixed 3 (race_factor cs) ].

(** [plot_kidney_disease_stages_with_correct_format(egfr, creatinine, age,
    sex, race)]. *)
Definition plot_kidney_disease_stages_with_correct_format
    (egfr creatinine age : R) (sex race : string) : plt unit :=
  (draw_bands ;;
   emit (Axvline egfr "blue" "--"
           [Lit "eGFR = "; Fixed 2 egfr; Lit " mL/min/1.73m²"]) ;;
   emit (Text (egfr + 1) (Z.of_nat (List.length stages) - 1) [Fixed 2 egfr]
           "blue" 10 "center") ;;
   cs <- lift (plot_constants creatinine sex race) ;;
   emit (Figtext 0.5 0.001 (formula cs creatinine age) true "center" 10) ;;
   emit (Figtext 0.02 (- 0) (constants_info cs creatinine age sex) true
           "left" 9) ;;
   emit (Title "Kidney Disease Stages Based on eGFR") ;;
   emit (Xlabel "eGFR (mL/min/1.73m²)") ;;
   emit (Ylabel "Kidney Disease Stages") ;;
   emit (Legend "lower center" (0.5, -0.35) 9 2 true) ;;
   emit (Grid "x" "--" 0.5) ;;
   emit TightLayout ;;
   emit Show)%plt.

(* ===================================================================== *)
(** ** The drawing calls and the band table                           *)
(* ===================================================================== *)

(** The six [barh] calls of the loop. *)
Definition band_commands : list draw :=
  [ Barh "Stage 5: Kidney Failure" 15 0 "darkred" "black" 0.7;
    Barh "Stage 4: Severe Reduction" 15 15 "red" "black" 0.7;
    Barh "Stage 3b: Moderate-to-Severe Reduction" 15 30 "orange" "black" 0.7;
    Barh "Stage 3a: Mild-to-Moderate Reduction" 15 45 "yellow" "black" 0.7;
    Barh "Stage 2: Mild Reduction" 30 60 "lime" "black" 0.7;
    Barh "Stage 1: Normal or High Function" 30 90 "green" "black" 0.7 ].

(** The marker and its annotation. *)
Definition marker_commands (egfr : R) : list draw :=
  [ Axvline egfr "blue" "--"
      [Lit "eGFR = "; Fixed 2 egfr; Lit " mL/min/1.73m²"];
    Text (egfr + 1) 5 [Fixed 2 egfr] "blue" 10 "center" ].

(** Everything drawn after the constants are known. *)
Definition closing_commands (cs : constants) (creatinine age : R)
    (sex : string) : list draw :=
  [ Figtext 0.5 0.001 (formula cs creatinine age) true "center" 10;
    Figtext 0.02 (- 0) (constants_info cs creatinine age sex) true "left" 9;
    Title "Kidney Disease Stages Based on eGFR";
    Xlabel "eGFR (mL/min/1.73m²)";
    Ylabel "Kidney Disease Stages";
    Legend "lower center" (0.5, -0.35) 9 2 true;
    Grid "x" "--" 0.5;
    TightLayout;
    Show ].

(** A stage band: label, bounds and color. *)
Record band : Type := Band {
  label : string;
  lower_bound : Z;
  upper_bound : Z;
  band_color : string
}.

(** The bands a canvas shows: one per [barh], from [left] to
    [left + width]. *)
Definition bands_of (cv : canvas) : list band :=
  flat_map (fun d =>
    match d with
    | Barh y width lo color _ _ => [Band y lo (lo + width) color]
    | _ => []
    end) cv.

(** The stage band table of the specification. *)
Definition stage_band_table : list band :=
  [ Band "Stage 5: Kidney Failure" 0 15 "darkred";
    Band "Stage 4: Severe Reduction" 15 30 "red";
    Band "Stage 3b: Moderate-to-Severe Reduction" 30 45 "orange";
    Band "Stage 3a: Mild-to-Moderate Reduction" 45 60 "yellow";
    Band "Stage 2: Mild Reduction" 60 90 "lime";
    Band "Stage 1: Normal or High Function" 90 120 "green" ].

(** Each band ends where the next begins. *)
Fixpoint contiguous (bs : list band) : Prop :=
  match bs with
  | b :: ((b' :: _) as rest) => upper_bound b = lower_bound b' /\ contiguous rest
  | _ => True
  end.

(* ===================================================================== *)
(** ** The formula as the specification words it                         *)
(* ===================================================================== *)

(** [x^a] for a real [x <> 0]: the real power for a positive base, the
    principal complex value [|x|^a (cos (pi a) + i sin (pi a))] for a
    negative one. *)
Definition principal_power (x a : R) : pynum :=
  if Rlt_dec 0 x then PyFloat (Rpower x a)
  else PyComplex (Rpower (- x) a * cos (PI * a)) (Rpower (- x) a * sin (PI * a)).

(** A number multiplied by a real factor. *)
Definition scale (v : pynum) (c : R) : pynum :=
  match v with
  | PyFloat x => PyFloat (x * c)
  | PyComplex re im => PyComplex (re * c) (im * c)
  end.

(** The constants as the specification gives them, from whether the sex is
    male and whether the race is african-american. *)
Definition spec_k (male : bool) : R := if male then 0.9 else 0.7.
Definition spec_coeff (male : bool) : R := if male then 141 else 144.
Definition spec_alpha (male : bool) (creatinine : R) : R :=
  if Rle_dec creatinine (spec_k male)
  then (if male then -0.411 else -0.329)
  else -1.209.
Definition spec_race_factor (african_american : bool) : R :=
  if african_american then 1.159 else 1.0.

(** [coeff × (creatinine / k)^alpha × 0.993^age × race_factor]. *)
Definition ckd_epi (male african_american : bool) (creatinine age : R)
  : pynum :=
  scale (scale (scale (principal_power (creatinine / spec_k male)
                                       (spec_alpha male creatinine))
                      (spec_coeff male))
               (Rpower 0.993 age))
        (spec_race_factor african_american).

(** A sex the program accepts. *)
Definition valid_sex (sex : string) : bool :=
  eq_ignore_case sex "male" || eq_ignore_case sex "female".

(** The real value of the formula for a creatinine above 0. *)
Definition ckd_epi_real (male african_american : bool) (creatinine age : R)
  : R :=
  spec_coeff male
  * Rpower (creatinine / spec_k male) (spec_alpha male creatinine)
  * Rpower 0.993 age
  * spec_race_factor african_american.

(* ===================================================================== *)
(** ** Reading a canvas, and the script at the end of the file           *)
(* ===================================================================== *)

(** The positions of the vertical markers ([axvline]) on a canvas. *)
Definition markers_of (cv : canvas) : list R :=
  flat_map (fun d =>
    match d with
    | Axvline x _ _ _ => [x]
    | _ => []
    end) cv.

(** The positions of the annotations ([text]) on a canvas. *)
Definition annotations_of (cv : canvas) : list (R * Z) :=
  flat_map (fun d =>
    match d with
    | Text x y _ _ _ _ => [(x, y)]
    | _ => []
    end) cv.

(** Whether a drawing call is [show]. *)
Definition is_show (d : draw) : bool :=
  match d with
  | Show => true
  | _ => false
  end.

Section Script.

(** What the renderer does when the value it is given is a [complex]
    depends on matplotlib and is left open; the script never gets there. *)
Variable render_complex : R -> R -> plt unit.

(** The renderer applied to the value that [calculate_egfr] returned. *)
Definition render (egfr : pynum) (creatinine age : R) (sex race : string)
  : plt unit :=
  match egfr with
  | PyFloat x =>
      plot_kidney_disease_stages_with_correct_format x creatinine age sex race
  | PyComplex re im => render_complex re im
  end.

(** Lines 115-124: the example run at the end of the file. *)
Definition script : plt unit :=
  let creatinine := 1.45 in
  let age := 45 in
  let sex := "male" in
  let race := "non-african-american" in
  (egfr <- lift (calculate_egfr creatinine age sex race) ;;
   render egfr creatinine age sex race)%plt.

End Script.

(* ===================================================================== *)
(** ** Doubles: the range of the results                                 *)
(* ===================================================================== *)

(** [calculate_egfr] above takes the result of every operation as the real
    number it denotes. The definitions of this part keep the range of an
    IEEE double as well: a result of magnitude [2^1024] or more is an
    infinity, which [**] turns into [OverflowError]; a result of magnitude
    [2^-1075] or less, half the smallest double, is [0.0]. Rounding inside
    the range is still left out. The arguments are the real numbers of
    finite doubles. *)

Definition huge : R := 2 ^ 1024.
Definition tiny : R := / 2 ^ 1075.

(** A double: a real number, an infinity or a NaN. *)
Inductive double : Type :=
| Finite (x : R)
| PlusInf
| MinusInf
| NaN.

(** Underflow: a result too small for a double is [0.0]. *)
Definition flush (v : R) : R := if Rle_dec (Rabs v) tiny then 0 else v.

(** The double for the real result of a product, a quotient or a power. *)
Definition to_double (v : R) : double :=
  if Rle_dec huge v then PlusInf
  else if Rle_dec v (- huge) then MinusInf
  else Finite (flush v).

(** The double for the real result of a sum or a difference, which does
    not underflow. *)
Definition to_double_sum (v : R) : double :=
  if Rle_dec huge v then PlusInf
  else if Rle_dec v (- huge) then MinusInf
  else Finite v.

Definition is_infinite (d : double) : bool :=
  match d with
  | PlusInf | MinusInf => true
  | _ => false
  end.

Definition double_neg (d : double) : double :=
  match d with
  | Finite x => Finite (- x)
  | PlusInf => MinusInf
  | MinusInf => PlusInf
  | NaN => NaN
  end.

(** An infinity times a finite double: NaN for 0, otherwise an infinity
    with the sign of the product. *)
Definition inf_times (positive : bool) (x : R) : double :=
  if Req_dec_T x 0 then NaN
  else if Rlt_dec 0 x then (if positive then PlusInf else MinusInf)
  else (if positive then MinusInf else PlusInf).

(** [a * b] on doubles. *)
Definition double_mul (a b : double) : double :=
  match a, b with
  | NaN, _ | _, NaN => NaN
  | Finite x, Finite y => to_double (x * y)
  | Finite x, PlusInf | PlusInf, Finite x => inf_times true x
  | Finite x, MinusInf | MinusInf, Finite x => inf_times false x
  | PlusInf, PlusInf | MinusInf, MinusInf => PlusInf
  | PlusInf, MinusInf | MinusInf, PlusInf => MinusInf
  end.

(** [a + b] on doubles. *)
Definition double_add (a b : double) : double :=
  match a, b with
  | NaN, _ | _, NaN => NaN
  | Finite x, Finite y => to_double_sum (x + y)
  | PlusInf, MinusInf | MinusInf, PlusInf => NaN
  | PlusInf, _ | _, PlusInf => PlusInf
  | MinusInf, _ | _, MinusInf => MinusInf
  end.

Definition double_sub (a b : double) : double := double_add a (double_neg b).

(** A Python number over doubles: a [float] or a [complex]. *)
Inductive dnum : Type :=
| DFloat (x : double)
| DComplex (re im : double).

Definition dnum_to_complex (v : dnum) : double * double :=
  match v with
  | DFloat x => (x, Finite 0)
  | DComplex re im => (re, im)
  end.

(** [v * w] over doubles, as [py_mul]. *)
Definition dnum_mul (v w : dnum) : dnum :=
  match v, w with
  | DFloat x, DFloat y => DFloat (double_mul x y)
  | _, _ =>
      let '(a, b) := dnum_to_complex v in
      let '(c, d) := dnum_to_complex w in
      DComplex (double_sub (double_mul a c) (double_mul b d))
               (double_add (double_mul a d) (double_mul b c))
  end.

(** [x / y] on floats: the quotient may be an infinity. *)
Definition float_div (x y : R) : result double :=
  if Req_dec_T y 0 then Raise ZeroDivisionError else Ok (to_double (x / y)).

(** The result of the C function [pow] as [**] takes it: an infinite
    result raises [OverflowError], an underflow is [0.0]. *)
Definition pow_result (v : R) : result dnum :=
  let d := to_double v in
  if is_infinite d then Raise OverflowError else Ok (DFloat d).

(** The complex power of a negative base [x] (complex_pow): the modulus
    [|x|^y] times the cosine and the sine of the phase [pi y]; an infinite
    part raises [OverflowError]. *)
Definition complex_pow (x y : R) : result dnum :=
  let len := to_double (Rpower (- x) y) in
  let re := double_mul len (Finite (cos (PI * y))) in
  let im := double_mul len (Finite (sin (PI * y))) in
  if is_infinite re || is_infinite im then Raise OverflowError
  else Ok (DComplex re im).

(** Whether a float holds an odd integer. *)
Definition is_odd_integer (y : R) : bool :=
  is_integral y && Z.odd (Int_part y).

(** [b ** y] for a double [b] and a finite exponent [y] (float_pow):
    the cases of [py_pow], and before them those of a NaN and of an
    infinite base. *)
Definition float_pow (b : double) (y : R) : result dnum :=
  if Req_dec_T y 0 then Ok (DFloat (Finite 1))
  else
    match b with
    | NaN => Ok (DFloat NaN)
    | PlusInf =>
        if Rlt_dec 0 y then Ok (DFloat PlusInf) else Ok (DFloat (Finite 0))
    | MinusInf =>
        if Rlt_dec 0 y
        then Ok (DFloat (if is_odd_integer y then MinusInf else PlusInf))
        else Ok (DFloat (Finite 0))
    | Finite x =>
        if Req_dec_T x 0 then
          if Rlt_dec y 0 then Raise ZeroDivisionError else Ok (DFloat (Finite 0))
        else if Rlt_dec x 0 then
          if is_integral y then pow_result (powerRZ x (Int_part y))
          else complex_pow x y
        else pow_result (Rpower x y)
    end.

(** Line 26 over doubles. *)
Definition egfr_expression_double (cs : constants) (creatinine age : R)
  : result dnum :=
  q <- float_div creatinine (k cs) ;;
  p <- float_pow q (alpha cs) ;;
  a <- float_pow (Finite 0.993) age ;;
  Ok (dnum_mul (dnum_mul (dnum_mul (DFloat (Finite (IZR (coeff cs)))) p) a)
               (DFloat (Finite (race_factor cs)))).

(** [calculate_egfr(creatinine, age, sex, race)] over doubles. *)
Definition calculate_egfr_double (creatinine age : R) (sex race : string)
  : result dnum :=
  cs <- calculate_egfr_constants creatinine sex race ;;
  egfr_expression_double cs creatinine age.

(** The power [(creatinine / k)^alpha] as a double: [0.0] when the quotient
    is infinite or the power underflows. *)
Definition power_double (male : bool) (creatinine : R) : R :=
  if Rle_dec huge (creatinine / spec_k male) then 0
  else flush (Rpower (creatinine / spec_k male) (spec_alpha male creatinine)).

(** The value of the formula over doubles for a creatinine above 0 and an
    age from 0: every power and every product is flushed in turn. *)
Definition ckd_epi_double (male african_american : bool) (creatinine age : R)
  : R :=
  flush (flush (flush (spec_coeff male * power_double male creatinine)
                * flush (Rpower 0.993 age))
         * spec_race_factor african_american).

(** No power and no product of the formula underflows. *)
Definition no_underflow (male : bool) (creatinine age : R) : Prop :=
  tiny < Rpower (creatinine / spec_k male) (spec_alpha male creatinine)
  /\ tiny < Rpower 0.993 age
  /\ tiny < spec_coeff male
            * Rpower (creatinine / spec_k male) (spec_alpha male creatinine)
            * Rpower 0.993 age.

(* ===================================================================== *)
(** ** Facts about strings                                            *)
(* ===================================================================== *)

Lemma all_ascii_complete (c : ascii) : In c all_ascii.
Proof.
  unfold all_ascii. rewrite <- (ascii_nat_embedding c).
  apply in_map, in_seq. pose proof (nat_ascii_bounded c). lia.
Qed.

Lemma same_letter_table :
  forallb (fun a => forallb (fun b =>
    Bool.eqb (same_letter a b) (Ascii.eqb (lower_ascii a) (lower_ascii b)))
    all_ascii) all_ascii = true.
Proof. vm_compute. reflexivity. Qed.

(** [same_letter] is exactly "equal after [lower]". *)
Lemma same_letter_lower (a b : ascii) :
  same_letter a b = Ascii.eqb (lower_ascii a) (lower_ascii b).
Proof.
  pose proof same_letter_table as T.
  rewrite forallb_forall in T. specialize (T a (all_ascii_complete a)).
  rewrite forallb_forall in T. specialize (T b (all_ascii_complete b)).
  now apply Bool.eqb_prop.
Qed.

Lemma eq_ignore_case_lower (s t : string) :
  eq_ignore_case s t = true <-> lower s = lower t.
Proof.
  revert t. induction s as [|a s IH]; intros [|b t]; simpl;
    try (split; [reflexivity || discriminate | reflexivity || discriminate]).
  rewrite andb_true_iff, same_letter_lower, Ascii.eqb_eq, IH.
  split.
  - intros [-> ->]. reflexivity.
  - intros E. injection E as E1 E2. split; assumption.
Qed.

Lemma lower_eqb_iff (s t : string) :
  lowercase t -> (lower s =? t) = eq_ignore_case s t.
Proof.
  intros Ht. destruct (eq_ignore_case s t) eqn:E.
  - apply eq_ignore_case_lower in E. rewrite E, Ht. apply String.eqb_refl.
  - apply String.eqb_neq. intros H.
    assert (eq_ignore_case s t = true) as E'
        by (apply eq_ignore_case_lower; now rewrite Ht).
    congruence.
Qed.

(* ===================================================================== *)
(** ** Auxiliary facts                                                   *)
(* ===================================================================== *)

Lemma lower_male : lowercase "male".
Proof. reflexivity. Qed.

Lemma lower_female : lowercase "female".
Proof. reflexivity. Qed.

Lemma lower_african_american : lowercase "african-american".
Proof. reflexivity. Qed.

(** A string is not a case variant of both "male" and "female". *)
Lemma female_not_male (sex : string) :
  eq_ignore_case sex "female" = true -> eq_ignore_case sex "male" = false.
Proof.
  intros F. destruct (eq_ignore_case sex "male") eqn:M; [|reflexivity].
  apply eq_ignore_case_lower in F, M. rewrite F in M. discriminate M.
Qed.

(** The three outcomes of the branch on [sex.lower()], for either
    derivation of the constants. *)
Lemma constants_male (creatinine : R) (sex race : string) :
  eq_ignore_case sex "male" = true ->
  calculate_egfr_constants creatinine sex race =
    Ok (Constants 0.9 (if Rle_dec creatinine 0.9 then -0.411 else -1.209) 141
          (if eq_ignore_case race "african-american" then 1.159 else 1.0)).
Proof.
  intros M. unfold calculate_egfr_constants.
  rewrite (lower_eqb_iff sex _ lower_male), M.
  rewrite (lower_eqb_iff race _ lower_african_american). reflexivity.
Qed.

Lemma constants_female (creatinine : R) (sex race : string) :
  eq_ignore_case sex "female" = true ->
  calculate_egfr_constants creatinine sex race =
    Ok (Constants 0.7 (if Rle_dec creatinine 0.7 then -0.329 else -1.209) 144
          (if eq_ignore_case race "african-american" then 1.159 else 1.0)).
Proof.
  intros F. unfold calculate_egfr_constants.
  rewrite (lower_eqb_iff sex _ lower_male), (female_not_male sex F).
  rewrite (lower_eqb_iff sex _ lower_female), F.
  rewrite (lower_eqb_iff race _ lower_african_american). reflexivity.
Qed.

Lemma constants_invalid (creatinine : R) (sex race : string) :
  valid_sex sex = false ->
  calculate_egfr_constants creatinine sex race = Raise sex_error.
Proof.
  unfold valid_sex. intros V. apply orb_false_iff in V as [M F].
  unfold calculate_egfr_constants.
  rewrite (lower_eqb_iff sex _ lower_male), M.
  rewrite (lower_eqb_iff sex _ lower_female), F. reflexivity.
Qed.

(** The renderer derives the same constants as the estimator. *)
Lemma plot_constants_eq (creatinine : R) (sex race : string) :
  plot_constants creatinine sex race =
  calculate_egfr_constants creatinine sex race.
Proof.
  unfold plot_constants, calculate_egfr_constants.
  destruct (lower sex =? "male"); [reflexivity|].
  destruct (lower sex =? "female"); reflexivity.
Qed.

(** No decimal with a non-zero fractional part is an integer. *)
Lemma thousandth_not_integral (n : Z) (y : R) :
  y * 1000 = IZR n -> (n mod 1000 <> 0)%Z -> is_integral y = false.
Proof.
  intros Hy Hn. unfold is_integral.
  destruct (Req_dec_T (IZR (Int_part y)) y) as [E|]; [|reflexivity].
  exfalso. apply Hn.
  assert (IZR (Int_part y * 1000) = IZR n) as H
      by (rewrite mult_IZR, E; exact Hy).
  apply eq_IZR in H. subst n. apply Z.mod_mul. lia.
Qed.

Lemma py_div_nonzero (x y : R) : y <> 0 -> py_div x y = Ok (x / y).
Proof.
  intros Hy. unfold py_div. destruct (Req_dec_T y 0); [contradiction|reflexivity].
Qed.

(** [x ** y] for a positive base is the real power. *)
Lemma py_pow_pos (x y : R) : 0 < x -> py_pow x y = Ok (PyFloat (Rpower x y)).
Proof.
  intros Hx. unfold py_pow.
  destruct (Req_dec_T y 0) as [->|Hy].
  - rewrite Rpower_O by assumption. reflexivity.
  - destruct (Req_dec_T x 0); [lra|]. destruct (Rlt_dec x 0); [lra|reflexivity].
Qed.

(** [0.0 ** y] for a negative [y] raises. *)
Lemma py_pow_zero_neg (y : R) : y < 0 -> py_pow 0 y = Raise ZeroDivisionError.
Proof.
  intros Hy. unfold py_pow.
  destruct (Req_dec_T y 0); [lra|]. destruct (Req_dec_T 0 0); [|lra].
  destruct (Rlt_dec y 0); [reflexivity|lra].
Qed.

(** [x ** y] for [x <> 0] and [y] not an integer is the principal value. *)
Lemma py_pow_principal (x y : R) :
  x <> 0 -> is_integral y = false -> py_pow x y = Ok (principal_power x y).
Proof.
  intros Hx Hy. unfold principal_power.
  destruct (Rlt_dec 0 x) as [P|N].
  - apply py_pow_pos, P.
  - unfold py_pow. destruct (Req_dec_T y 0) as [->|_].
    + exfalso. unfold is_integral in Hy.
      replace (Int_part 0) with 0%Z in Hy.
      * destruct (Req_dec_T 0 0); [discriminate|lra].
      * apply Int_part_spec. lra.
    + destruct (Req_dec_T x 0); [contradiction|].
      destruct (Rlt_dec x 0); [|lra]. rewrite Hy. reflexivity.
Qed.

(** The chain of products of line 26 is a chain of real factors. *)
Lemma py_mul_chain (p : pynum) (c a f : R) :
  py_mul (py_mul (py_mul (PyFloat c) p) (PyFloat a)) (PyFloat f) =
  scale (scale (scale p c) a) f.
Proof.
  destruct p as [x|re im]; simpl; f_equal; ring.
Qed.

Lemma py_mul_one (v : pynum) : py_mul v (PyFloat 1.0) = v.
Proof.
  destruct v as [x|re im]; simpl; f_equal; lra.
Qed.

(** Line 26 away from creatinine 0, for an exponent that is not an
    integer. *)
Lemma egfr_expression_nonzero (cs : constants) (creatinine age : R) :
  k cs <> 0 -> is_integral (alpha cs) = false -> creatinine <> 0 ->
  egfr_expression cs creatinine age =
  Ok (scale (scale (scale (principal_power (creatinine / k cs) (alpha cs))
                          (IZR (coeff cs)))
                   (Rpower 0.993 age))
            (race_factor cs)).
Proof.
  intros Hk Ha Hc. unfold egfr_expression.
  rewrite py_div_nonzero by assumption. cbn [rbind].
  rewrite py_pow_principal; trivial.
  - cbn [rbind]. rewrite py_pow_pos by lra. cbn [rbind].
    now rewrite py_mul_chain.
  - unfold Rdiv. apply Rmult_integral_contrapositive_currified; trivial.
    now apply Rinv_neq_0_compat.
Qed.

(** Line 26 at creatinine 0: the power of zero raises. *)
Lemma egfr_expression_zero (cs : constants) (age : R) :
  k cs <> 0 -> alpha cs < 0 ->
  egfr_expression cs 0 age = Raise ZeroDivisionError.
Proof.
  intros Hk Ha. unfold egfr_expression.
  rewrite py_div_nonzero by assumption. cbn [rbind].
  replace (0 / k cs) with 0 by (unfold Rdiv; ring).
  now rewrite py_pow_zero_neg.
Qed.

(** The exponents of the program are not integers, and are negative. *)
Lemma alpha_male_fractional (creatinine : R) :
  is_integral (if Rle_dec creatinine 0.9 then -0.411 else -1.209) = false.
Proof.
  destruct (Rle_dec creatinine 0.9).
  - apply (thousandth_not_integral (-411)); [lra | discriminate].
  - apply (thousandth_not_integral (-1209)); [lra | discriminate].
Qed.

Lemma alpha_female_fractional (creatinine : R) :
  is_integral (if Rle_dec creatinine 0.7 then -0.329 else -1.209) = false.
Proof.
  destruct (Rle_dec creatinine 0.7).
  - apply (thousandth_not_integral (-329)); [lra | discriminate].
  - apply (thousandth_not_integral (-1209)); [lra | discriminate].
Qed.

(** What [calculate_egfr] does for a valid sex: the formula away from
    creatinine 0, [ZeroDivisionError] at 0. *)
Lemma calculate_egfr_valid (creatinine age : R) (sex race : string) :
  valid_sex sex = true ->
  calculate_egfr creatinine age sex race =
  if Req_dec_T creatinine 0 then Raise ZeroDivisionError
  else Ok (ckd_epi (eq_ignore_case sex "male")
                   (eq_ignore_case race "african-american") creatinine age).
Proof.
  unfold valid_sex. intros V. unfold calculate_egfr, ckd_epi.
  destruct (eq_ignore_case sex "male") eqn:M.
  - rewrite constants_male by assumption. simpl rbind.
    destruct (Req_dec_T creatinine 0) as [->|Hc].
    + apply egfr_expression_zero; simpl; [lra|].
      destruct (Rle_dec 0 0.9); lra.
    + rewrite egfr_expression_nonzero; simpl; trivial; [lra|].
      apply alpha_male_fractional.
  - simpl in V. rewrite constants_female by assumption. simpl rbind.
    destruct (Req_dec_T creatinine 0) as [->|Hc].
    + apply egfr_expression_zero; simpl; [lra|].
      destruct (Rle_dec 0 0.7); lra.
    + rewrite egfr_expression_nonzero; simpl; trivial; [lra|].
      apply alpha_female_fractional.
Qed.

Lemma calculate_egfr_invalid (creatinine age : R) (sex race : string) :
  valid_sex sex = false ->
  calculate_egfr creatinine age sex race = Raise sex_error.
Proof.
  intros V. unfold calculate_egfr. now rewrite constants_invalid.
Qed.

(* ===================================================================== *)
(** ** What the renderer draws                                        *)
(* ===================================================================== *)

Local Open Scope list_scope.

Lemma draw_bands_run (cv : canvas) :
  draw_bands cv = (cv ++ band_commands, Ok tt).
Proof.
  unfold draw_bands, band_commands. simpl.
  unfold pbind, pret, lift, emit. simpl.
  repeat rewrite <- app_assoc. reflexivity.
Qed.

(** One run of the renderer: the bands, the marker and the annotation are
    always drawn; the rest only when the constants could be derived. *)
Lemma plot_run (egfr creatinine age : R) (sex race : string) (cv : canvas) :
  plot_kidney_disease_stages_with_correct_format egfr creatinine age sex race cv
  = match plot_constants creatinine sex race with
    | Ok cs =>
        (cv ++ band_commands ++ marker_commands egfr
            ++ closing_commands cs creatinine age sex, Ok tt)
    | Raise e => (cv ++ band_commands ++ marker_commands egfr, Raise e)
    end.
Proof.
  unfold plot_kidney_disease_stages_with_correct_format.
  unfold pbind at 1. rewrite draw_bands_run.
  unfold pbind, lift, emit, marker_commands, closing_commands.
  destruct (plot_constants creatinine sex race) as [cs|e]; simpl;
    repeat rewrite <- app_assoc; reflexivity.
Qed.

Lemma bands_of_app (cv cv' : canvas) :
  bands_of (cv ++ cv') = bands_of cv ++ bands_of cv'.
Proof. apply flat_map_app. Qed.

Lemma bands_of_plot (egfr creatinine age : R) (sex race : string)
    (cv : canvas) :
  bands_of (fst (plot_kidney_disease_stages_with_correct_format
                   egfr creatinine age sex race cv))
  = bands_of cv ++ stage_band_table.
Proof.
  rewrite plot_run.
  destruct (plot_constants creatinine sex race); simpl fst;
    repeat rewrite bands_of_app; simpl; rewrite ?app_nil_r; reflexivity.
Qed.

(* ===================================================================== *)
(** ** The formula computed by [calculate_egfr]                          *)
(* ===================================================================== *)



(* ===================================================================== *)
(** ** The exponent at the threshold                                     *)
(* ===================================================================== *)

(** C4: the exponent is chosen by [creatinine <= k], the boundary being in
    the [<=] branch: for "male", creatinine 0.9 (and every creatinine up to
    0.9) computes with alpha = -0.411 and every creatinine above 0.9, such
    as 0.9000001, with alpha = -1.209; for "female" the same holds at 0.7
    with -0.329 and -1.209. [calculate_egfr] evaluates its expression with
    the constants so chosen. *)
Theorem alpha_branch_boundary (creatinine age : R) (race : string) :
  rmap alpha (calculate_egfr_constants 0.9 "male" race) = Ok (-0.411)
  /\ rmap alpha (calculate_egfr_constants 0.9000001 "male" race) = Ok (-1.209)
  /\ (creatinine <= 0.9 ->
      rmap alpha (calculate_egfr_constants creatinine "male" race)
      = Ok (-0.411))
  /\ (0.9 < creatinine ->
      rmap alpha (calculate_egfr_constants creatinine "male" race)
      = Ok (-1.209))
  /\ rmap alpha (calculate_egfr_constants 0.7 "female" race) = Ok (-0.329)
  /\ (creatinine <= 0.7 ->
      rmap alpha (calculate_egfr_constants creatinine "female" race)
      = Ok (-0.329))
  /\ (0.7 < creatinine ->
      rmap alpha (calculate_egfr_constants creatinine "female" race)
      = Ok (-1.209))
  /\ (forall sex,
        calculate_egfr creatinine age sex race
        = rbind (calculate_egfr_constants creatinine sex race)
                (fun cs => egfr_expression cs creatinine age)).
Proof.
  assert (forall c, rmap alpha (calculate_egfr_constants c "male" race)
                    = Ok (if Rle_dec c 0.9 then -0.411 else -1.209)) as M
      by (intros c; now rewrite constants_male).
  assert (forall c, rmap alpha (calculate_egfr_constants c "female" race)
                    = Ok (if Rle_dec c 0.7 then -0.329 else -1.209)) as F
      by (intros c; now rewrite constants_female).
  repeat split; intros; rewrite ?M, ?F;
    try match goal with
        | |- context [Rle_dec ?a ?b] => destruct (Rle_dec a b)
        end;
    try reflexivity; exfalso; lra.
Qed.

Lemma alpha_branch_boundary_witness :
  rmap alpha (calculate_egfr_constants 0.85 "male" default_race) = Ok (-0.411)
  /\ rmap alpha (calculate_egfr_constants 1.45 "male" default_race)
     = Ok (-1.209)
  /\ rmap alpha (calculate_egfr_constants 0.5 "female" default_race)
     = Ok (-0.329)
  /\ rmap alpha (calculate_egfr_constants 0.71 "female" default_race)
     = Ok (-1.209).
Proof.
  split; [|split; [|split]].
  - apply (alpha_branch_boundary 0.85 45 default_race). lra.
  - apply (alpha_branch_boundary 1.45 45 default_race). lra.
  - apply (alpha_branch_boundary 0.5 45 default_race). lra.
  - apply (alpha_branch_boundary 0.71 45 default_race). lra.
Defined.

(* ===================================================================== *)
(** ** Race factor and letter case                                       *)
(* ===================================================================== *)

(** C5: for every creatinine, age and sex, the result for race
    "african-american" is the result for race "non-african-american"
    multiplied by 1.159 (and the one call raises exactly when the other
    does). *)
Theorem race_factor_ratio (creatinine age : R) (sex : string) :
  calculate_egfr creatinine age sex "african-american"
  = rmap (fun v => py_mul v (PyFloat 1.159))
         (calculate_egfr creatinine age sex "non-african-american").
Proof.
  unfold calculate_egfr, calculate_egfr_constants.
  destruct (if lower sex =? "male"
            then Ok (0.9, if Rle_dec creatinine 0.9 then -0.411 else -1.209,
                     141%Z)
            else if lower sex =? "female"
                 then Ok (0.7,
                          if Rle_dec creatinine 0.7 then -0.329 else -1.209,
                          144%Z)
                 else Raise sex_error) as [[[k0 a0] c0]|e]; [|reflexivity].
  cbn [rbind rmap lower eqb]. unfold egfr_expression. cbn [k alpha coeff race_factor].
  destruct (py_div creatinine k0) as [q|]; [|reflexivity]. cbn [rbind].
  destruct (py_pow q a0) as [p|]; [|reflexivity]. cbn [rbind].
  destruct (py_pow 0.993 age) as [a|]; [|reflexivity]. cbn [rbind].
  simpl String.eqb. cbv iota. now rewrite py_mul_one.
Qed.

(** C6: [calculate_egfr] does not depend on the letter case of the sex: two
    sex strings equal up to letter case give the same result for every
    creatinine, age and race; so "MALE" gives what "male" gives, and every
    case variant of "female" what "female" gives. *)
Theorem sex_case_insensitive (creatinine age : R) (sex sex' race : string) :
  eq_ignore_case sex sex' = true ->
  calculate_egfr creatinine age sex race
  = calculate_egfr creatinine age sex' race.
Proof.
  intros E. apply eq_ignore_case_lower in E.
  unfold calculate_egfr, calculate_egfr_constants. now rewrite E.
Qed.

Lemma sex_case_insensitive_witness :
  calculate_egfr 1.0 30 "MALE" default_race
  = calculate_egfr 1.0 30 "male" default_race
  /\ calculate_egfr 1.0 30 "FeMaLe" default_race
     = calculate_egfr 1.0 30 "female" default_race.
Proof.
  split.
  - apply (sex_case_insensitive 1.0 30 "MALE" "male" default_race).
    reflexivity.
  - apply (sex_case_insensitive 1.0 30 "FeMaLe" "female" default_race).
    reflexivity.
Defined.

(* ===================================================================== *)
(** ** The stage band table                                              *)
(* ===================================================================== *)

(** C7: every call of the renderer draws the same band table, whatever its
    arguments and whether or not it raises: the 6 bands over the thresholds
    0, 15, 30, 45, 60, 90, 120, which increase strictly; each band ends where
    the next begins, the first begins at 0 and the last ends at 120, so every
    value of [0, 120) lies in exactly one band; the bands are labelled
    Stage 5 to Stage 1 in that order with the colors darkred, red, orange,
    yellow, lime, green; there are 6 labels, 6 colors and 6 bands. *)
Theorem stage_band_table_fixed (egfr creatinine age : R) (sex race : string)
    (cv : canvas) :
  bands_of (fst (plot_kidney_disease_stages_with_correct_format
                   egfr creatinine age sex race cv))
  = bands_of cv ++ stage_band_table
  /\ thresholds = [0; 15; 30; 45; 60; 90; 120]%Z
  /\ Sorted.StronglySorted Z.lt thresholds
  /\ map lower_bound stage_band_table = removelast thresholds
  /\ map upper_bound stage_band_table = tl thresholds
  /\ contiguous stage_band_table
  /\ map label stage_band_table = stages
  /\ map band_color stage_band_table = colors
  /\ List.length stages = 6%nat
  /\ List.length colors = 6%nat
  /\ List.length stage_band_table = 6%nat
  /\ (forall x : R, 0 <= x < 120 ->
        exists! b, In b stage_band_table
                   /\ IZR (lower_bound b) <= x < IZR (upper_bound b)).
Proof.
  split; [apply bands_of_plot|].
  split; [reflexivity|].
  split.
  { unfold thresholds.
    repeat (apply Sorted.SSorted_cons;
            [|repeat (apply Forall_cons; [lia|]); apply Forall_nil]).
    apply Sorted.SSorted_nil. }
  do 2 (split; [reflexivity|]).
  split; [simpl; tauto|].
  do 5 (split; [reflexivity|]).
  intros x [H0 H120].
  assert (forall b, In b stage_band_table ->
            IZR (lower_bound b) <= x < IZR (upper_bound b) ->
            forall b', In b' stage_band_table ->
              IZR (lower_bound b') <= x < IZR (upper_bound b') -> b = b') as U.
  { intros b Hb Hx b' Hb' Hx'. simpl in Hb, Hb'.
    repeat (destruct Hb as [<-|Hb]; [|]); try contradiction;
      repeat (destruct Hb' as [<-|Hb']; [|]); try contradiction;
      simpl in Hx, Hx'; try reflexivity; exfalso; lra. }
  assert (exists b, In b stage_band_table
                    /\ IZR (lower_bound b) <= x < IZR (upper_bound b)) as E.
  { destruct (Rlt_dec x 15); [eexists; split; [left; reflexivity|simpl; lra]|].
    destruct (Rlt_dec x 30);
      [eexists; split; [right; left; reflexivity|simpl; lra]|].
    destruct (Rlt_dec x 45);
      [eexists; split; [do 2 right; left; reflexivity|simpl; lra]|].
    destruct (Rlt_dec x 60);
      [eexists; split; [do 3 right; left; reflexivity|simpl; lra]|].
    destruct (Rlt_dec x 90);
      [eexists; split; [do 4 right; left; reflexivity|simpl; lra]|].
    eexists; split; [do 5 right; left; reflexivity|simpl; lra]. }
  destruct E as [b [Hb Hx]]. exists b. split; [split; assumption|].
  intros b' [Hb' Hx']. now apply (U b Hb Hx b' Hb' Hx').
Qed.

Lemma stage_band_table_fixed_witness :
  exists! b, In b stage_band_table
             /\ IZR (lower_bound b) <= 57.75 < IZR (upper_bound b).
Proof.
  apply (stage_band_table_fixed 57.75 1.45 45 "male" default_race []). lra.
Defined.

(* ===================================================================== *)
(** ** The two derivations of the constants                              *)
(* ===================================================================== *)

(** C8: for every sex, creatinine and race, the constants k, coeff, alpha
    and race_factor that the renderer derives are those that
    [calculate_egfr] derives (and the one derivation raises exactly when the
    other does): the two are the same function. *)
Theorem constants_agree (creatinine : R) (sex race : string) :
  plot_constants creatinine sex race
  = calculate_egfr_constants creatinine sex race.
Proof.
  unfold plot_constants, calculate_egfr_constants.
  destruct (lower sex =? "male").
  - reflexivity.
  - destruct (lower sex =? "female"); reflexivity.
Qed.

(* ===================================================================== *)
(** ** What a failing call of the renderer leaves behind                 *)
(* ===================================================================== *)

(** C9, as stated, fails: called with the sex "other" on an empty canvas,
    the renderer raises the sex error and leaves eight drawing calls on the
    canvas: the six bands, the marker and the annotation. *)
Lemma renderer_draws_before_raising :
  plot_kidney_disease_stages_with_correct_format
    57.75 1.45 45 "other" "non-african-american" []
  = (band_commands ++ marker_commands 57.75, Raise sex_error)
  /\ fst (plot_kidney_disease_stages_with_correct_format
            57.75 1.45 45 "other" "non-african-american" []) <> [].
Proof.
  rewrite plot_run, plot_constants_eq, constants_invalid by reflexivity.
  split; [reflexivity|]. simpl. discriminate.
Qed.

(** C9 (amended): [calculate_egfr] draws nothing (it has no canvas), so a
    call of it returns or raises with nothing left behind. The renderer
    called with a valid sex makes all its drawing calls and returns; called
    with an invalid sex it raises the sex error after it has drawn the six
    bands, the marker and the annotation, which stay on the canvas, and
    before it draws any of the formula text, the constants text, the title,
    the axis labels, the legend and the grid, and before it shows the
    figure. *)
Theorem renderer_partial_drawing (egfr creatinine age : R) (sex race : string)
    (cv : canvas) :
  (valid_sex sex = false ->
   plot_kidney_disease_stages_with_correct_format
     egfr creatinine age sex race cv
   = (cv ++ band_commands ++ marker_commands egfr, Raise sex_error))
  /\ (valid_sex sex = true ->
      exists cs,
        calculate_egfr_constants creatinine sex race = Ok cs
        /\ plot_kidney_disease_stages_with_correct_format
             egfr creatinine age sex race cv
           = (cv ++ band_commands ++ marker_commands egfr
                 ++ closing_commands cs creatinine age sex, Ok tt)).
Proof.
  rewrite plot_run, plot_constants_eq. split; intros V.
  - now rewrite constants_invalid.
  - unfold valid_sex in V. destruct (eq_ignore_case sex "male") eqn:M.
    + rewrite constants_male by assumption. eexists. split; reflexivity.
    + rewrite constants_female by assumption. eexists. split; reflexivity.
Qed.

Lemma renderer_partial_drawing_witness :
  plot_kidney_disease_stages_with_correct_format 57.75 1.45 45 "nobody"
    default_race []
  = (band_commands ++ marker_commands 57.75, Raise sex_error)
  /\ exists cs,
       calculate_egfr_constants 1.45 "male" default_race = Ok cs
       /\ plot_kidney_disease_stages_with_correct_format 57.75 1.45 45 "male"
            default_race []
          = (band_commands ++ marker_commands 57.75
               ++ closing_commands cs 1.45 45 "male", Ok tt).
Proof.
  split.
  - apply (renderer_partial_drawing 57.75 1.45 45 "nobody" default_race []).
    reflexivity.
  - apply (renderer_partial_drawing 57.75 1.45 45 "male" default_race []).
    reflexivity.
Defined.

(* ===================================================================== *)
(** ** The value of the formula in exact arithmetic                      *)
(* ===================================================================== *)

(** The facts of this part are about the real number that the formula
    denotes. They say nothing of the double that Python returns for it,
    which is rounded and underflows to [0.0] for a large creatinine or a
    large age. *)

Lemma Rpower_pos (x y : R) : 0 < Rpower x y.
Proof. unfold Rpower. apply exp_pos. Qed.




Lemma spec_k_pos (male : bool) : 0 < spec_k male.
Proof. destruct male; simpl; lra. Qed.

Lemma spec_coeff_pos (male : bool) : 0 < spec_coeff male.
Proof. destruct male; simpl; lra. Qed.

Lemma spec_race_factor_pos (african_american : bool) :
  0 < spec_race_factor african_american.
Proof. destruct african_american; simpl; lra. Qed.

Lemma spec_alpha_neg (male : bool) (creatinine : R) :
  spec_alpha male creatinine < 0.
Proof.
  unfold spec_alpha.
  destruct (Rle_dec creatinine (spec_k male)); destruct male; lra.
Qed.

(** The real value of the formula is positive. *)
Lemma ckd_epi_real_positive (male african_american : bool)
    (creatinine age : R) :
  0 < ckd_epi_real male african_american creatinine age.
Proof.
  unfold ckd_epi_real.
  repeat apply Rmult_lt_0_compat;
    auto using spec_coeff_pos, spec_race_factor_pos, Rpower_pos.
Qed.



(* ===================================================================== *)
(** ** Further properties of [calculate_egfr]                            *)
(* ===================================================================== *)

Lemma race_flag (race : string) :
  (lower race =? "african-american")%string
  = eq_ignore_case race "african-american".
Proof. apply lower_eqb_iff, lower_african_american. Qed.

(** X1: the race is read only through whether it is, up to letter case,
    "african-american": two race strings that agree on that give the same
    result of [calculate_egfr] and the same run of the renderer. So the race
    is case-insensitive, and every other string behaves as the default. *)
Theorem race_only_by_flag (egfr creatinine age : R) (sex race race' : string)
    (cv : canvas) :
  eq_ignore_case race "african-american"
  = eq_ignore_case race' "african-american" ->
  calculate_egfr creatinine age sex race
  = calculate_egfr creatinine age sex race'
  /\ plot_kidney_disease_stages_with_correct_format
       egfr creatinine age sex race cv
     = plot_kidney_disease_stages_with_correct_format
         egfr creatinine age sex race' cv.
Proof.
  intros H.
  assert (calculate_egfr_constants creatinine sex race
          = calculate_egfr_constants creatinine sex race') as E.
  { unfold calculate_egfr_constants. now rewrite !race_flag, H. }
  split.
  - unfold calculate_egfr. now rewrite E.
  - now rewrite !plot_run, !plot_constants_eq, E.
Qed.

Lemma race_only_by_flag_witness :
  (calculate_egfr 1.45 45 "male" "African-AMERICAN"
   = calculate_egfr 1.45 45 "male" "african-american"
   /\ plot_kidney_disease_stages_with_correct_format
        57.75 1.45 45 "male" "African-AMERICAN" []
      = plot_kidney_disease_stages_with_correct_format
          57.75 1.45 45 "male" "african-american" [])
  /\ (calculate_egfr 1.45 45 "male" "martian"
      = calculate_egfr 1.45 45 "male" default_race
      /\ plot_kidney_disease_stages_with_correct_format
           57.75 1.45 45 "male" "martian" []
         = plot_kidney_disease_stages_with_correct_format
             57.75 1.45 45 "male" default_race []).
Proof.
  split.
  - apply (race_only_by_flag 57.75 1.45 45 "male" "African-AMERICAN"
             "african-american" []). reflexivity.
  - apply (race_only_by_flag 57.75 1.45 45 "male" "martian" default_race []).
    reflexivity.
Defined.




(** X3: for a valid sex, a creatinine from -1000 to below 0 and an age
    from 0 to 1000, [calculate_egfr] raises nothing and returns a [complex]
    that is not real: its real part is above 0 and its imaginary part
    below 0. *)
Theorem negative_creatinine_complex (creatinine age : R) (sex race : string) :
  valid_sex sex = true -> -1000 <= creatinine < 0 -> 0 <= age <= 1000 ->
  exists re im,
    calculate_egfr creatinine age sex race = Ok (PyComplex re im)
    /\ 0 < re /\ im < 0.
Proof.
  intros V [_ Hc] _. rewrite calculate_egfr_valid by assumption.
  destruct (Req_dec_T creatinine 0); [lra|].
  set (male := eq_ignore_case sex "male").
  set (aa := eq_ignore_case race "african-american").
  pose proof (spec_k_pos male) as Hk.
  pose proof (spec_coeff_pos male) as Hco.
  pose proof (spec_race_factor_pos aa) as Hrf.
  pose proof (Rpower_pos 0.993 age) as Hage.
  unfold ckd_epi, principal_power.
  assert (creatinine / spec_k male < 0) as Hq.
  { unfold Rdiv. pose proof (Rinv_0_lt_compat _ Hk). nra. }
  destruct (Rlt_dec 0 (creatinine / spec_k male)); [lra|].
  set (alpha0 := spec_alpha male creatinine).
  pose proof (Rpower_pos (- (creatinine / spec_k male)) alpha0) as Hp.
  assert (- (1 / 2) < alpha0 < 0) as Ha.
  { unfold alpha0, spec_alpha.
    destruct (Rle_dec creatinine (spec_k male)); [destruct male; lra|lra]. }
  pose proof PI_RGT_0 as Hpi.
  assert (0 < cos (PI * alpha0)) as Hcos by (apply cos_gt_0; nra).
  assert (sin (PI * alpha0) < 0) as Hsin by (apply sin_lt_0_var; nra).
  simpl scale. eexists. eexists. split; [reflexivity|]. split.
  - repeat apply Rmult_lt_0_compat; assumption.
  - assert (0 < Rpower (- (creatinine / spec_k male)) alpha0
                * - sin (PI * alpha0) * spec_coeff male * Rpower 0.993 age
                * spec_race_factor aa) as H
        by (repeat apply Rmult_lt_0_compat; lra).
    nra.
Qed.

Lemma negative_creatinine_complex_witness :
  exists re im,
    calculate_egfr (-1) 45 "male" "non-african-american"
    = Ok (PyComplex re im)
    /\ 0 < re /\ im < 0.
Proof.
  apply (negative_creatinine_complex (-1) 45 "male" "non-african-american").
  - reflexivity.
  - lra.
  - lra.
Defined.



(* ===================================================================== *)
(** ** Further properties of the renderer                                *)
(* ===================================================================== *)

Lemma constants_of_valid (creatinine : R) (sex race : string) :
  valid_sex sex = true ->
  exists cs, calculate_egfr_constants creatinine sex race = Ok cs.
Proof.
  unfold valid_sex. intros V. destruct (eq_ignore_case sex "male") eqn:M.
  - eexists. now apply constants_male.
  - eexists. now apply constants_female.
Qed.

(** X4: the renderer is not invariant under the letter case of the sex the
    way [calculate_egfr] is. For two sex strings equal up to letter case it
    derives the same constants and ends the same way, but it prints the sex
    as it was typed: for a valid sex the two runs draw the same canvas only
    if the two strings are the same. *)
Theorem renderer_sex_case (egfr creatinine age : R) (sex sex' race : string)
    (cv : canvas) :
  eq_ignore_case sex sex' = true ->
  plot_constants creatinine sex race = plot_constants creatinine sex' race
  /\ snd (plot_kidney_disease_stages_with_correct_format
            egfr creatinine age sex race cv)
     = snd (plot_kidney_disease_stages_with_correct_format
              egfr creatinine age sex' race cv)
  /\ (valid_sex sex = true ->
      plot_kidney_disease_stages_with_correct_format
        egfr creatinine age sex race cv
      = plot_kidney_disease_stages_with_correct_format
          egfr creatinine age sex' race cv ->
      sex = sex').
Proof.
  intros E. apply eq_ignore_case_lower in E.
  assert (plot_constants creatinine sex race
          = plot_constants creatinine sex' race) as EC
      by (unfold plot_constants; now rewrite E).
  split; [exact EC|]. rewrite !plot_run, <- EC. split.
  - destruct (plot_constants creatinine sex race); reflexivity.
  - intros V. rewrite plot_constants_eq.
    destruct (constants_of_valid creatinine sex race V) as [cs ->].
    intros H. injection H as H.
    apply app_inv_head in H.
    unfold band_commands, marker_commands, closing_commands, constants_info
      in H.
    simpl in H. congruence.
Qed.

Lemma renderer_sex_case_witness :
  plot_constants 1.45 "MALE" default_race
  = plot_constants 1.45 "male" default_race
  /\ snd (plot_kidney_disease_stages_with_correct_format
            57.75 1.45 45 "MALE" default_race [])
     = snd (plot_kidney_disease_stages_with_correct_format
              57.75 1.45 45 "male" default_race [])
  /\ (valid_sex "MALE" = true ->
      plot_kidney_disease_stages_with_correct_format
        57.75 1.45 45 "MALE" default_race []
      = plot_kidney_disease_stages_with_correct_format
          57.75 1.45 45 "male" default_race [] ->
      "MALE" = "male").
Proof.
  apply (renderer_sex_case 57.75 1.45 45 "MALE" "male" default_race []).
  reflexivity.
Defined.

Lemma last_app_cons {A : Type} (l1 : list A) (x : A) (l2 : list A) (d : A) :
  last (l1 ++ x :: l2) d = last (x :: l2) d.
Proof.
  induction l1 as [|a l1 IH]; [reflexivity|].
  rewrite <- IH. simpl app.
  destruct (l1 ++ x :: l2) eqn:E; [|reflexivity].
  destruct l1; discriminate.
Qed.

(** X6: the figure is shown exactly when the sex is valid. A call with a
    valid sex adds 17 drawing calls, the last of which is the only [show],
    and returns; a call with an invalid sex adds 8 drawing calls, none of
    them [show], and raises the sex error. *)
Theorem shown_iff_valid_sex (egfr creatinine age : R) (sex race : string)
    (cv : canvas) :
  let run :=
    plot_kidney_disease_stages_with_correct_format
      egfr creatinine age sex race in
  filter is_show (fst (run cv))
  = filter is_show cv ++ (if valid_sex sex then [Show] else [])
  /\ List.length (fst (run cv))
     = (List.length cv + if valid_sex sex then 17 else 8)%nat
  /\ snd (run cv) = (if valid_sex sex then Ok tt else Raise sex_error)
  /\ (valid_sex sex = true -> last (fst (run cv)) TightLayout = Show).
Proof.
  intros run. unfold run. rewrite plot_run, plot_constants_eq.
  destruct (valid_sex sex) eqn:V.
  - destruct (constants_of_valid creatinine sex race V) as [cs ->].
    cbn [fst snd]. rewrite filter_app, !length_app.
    split; [reflexivity|]. split; [reflexivity|]. split; [reflexivity|].
    intros _. unfold band_commands. cbn [app].
    rewrite last_app_cons. reflexivity.
  - rewrite constants_invalid by assumption.
    cbn [fst snd]. rewrite filter_app, !length_app.
    split; [reflexivity|]. split; [reflexivity|]. split; [reflexivity|].
    discriminate.
Qed.

Lemma shown_iff_valid_sex_witness :
  last (fst (plot_kidney_disease_stages_with_correct_format
               57.75 1.45 45 "male" default_race [])) TightLayout = Show.
Proof.
  apply (shown_iff_valid_sex 57.75 1.45 45 "male" default_race []).
  reflexivity.
Defined.

Lemma markers_of_app (cv cv' : canvas) :
  markers_of (cv ++ cv') = markers_of cv ++ markers_of cv'.
Proof. apply flat_map_app. Qed.

Lemma annotations_of_app (cv cv' : canvas) :
  annotations_of (cv ++ cv') = annotations_of cv ++ annotations_of cv'.
Proof. apply flat_map_app. Qed.

(** X7: every call, whether it returns or raises, draws exactly one vertical
    marker, at x = egfr as it was passed (it is not checked against the
    other arguments or against the range of the bands), and exactly one
    annotation, one unit to the right of the marker on the row of the last
    stage. *)
Theorem one_marker_per_call (egfr creatinine age : R) (sex race : string)
    (cv : canvas) :
  markers_of (fst (plot_kidney_disease_stages_with_correct_format
                     egfr creatinine age sex race cv))
  = markers_of cv ++ [egfr]
  /\ annotations_of (fst (plot_kidney_disease_stages_with_correct_format
                            egfr creatinine age sex race cv))
     = annotations_of cv ++ [(egfr + 1, (Z.of_nat (List.length stages) - 1)%Z)].
Proof.
  rewrite plot_run.
  destruct (plot_constants creatinine sex race); simpl fst;
    rewrite !markers_of_app, !annotations_of_app; split; reflexivity.
Qed.

(** X8: the formula text that the renderer draws shows the constants with
    which [calculate_egfr] computes. For a valid sex a call draws the text
    "eGFR = {coeff} × ({creatinine:.2f}/{k:.2f})^({alpha:.3f}) ×
    (0.993^{age}) × {race_factor:.3f}" where coeff, k, alpha and race_factor
    are the constants that [calculate_egfr] derives for the same creatinine,
    sex and race, so evaluating its expression with them is what
    [calculate_egfr] does. *)
Theorem formula_text_shows_constants (egfr creatinine age : R)
    (sex race : string) :
  valid_sex sex = true ->
  exists cs,
    calculate_egfr_constants creatinine sex race = Ok cs
    /\ In (Figtext 0.5 0.001
             [ Lit "eGFR = "; Int (coeff cs); Lit " × ("; Fixed 2 creatinine;
               Lit "/"; Fixed 2 (k cs); Lit ")^("; Fixed 3 (alpha cs);
               Lit ") × (0.993^"; Num age; Lit ") × ";
               Fixed 3 (race_factor cs) ]
             true "center" 10)
          (fst (plot_kidney_disease_stages_with_correct_format
                  egfr creatinine age sex race []))
    /\ calculate_egfr creatinine age sex race
       = egfr_expression cs creatinine age.
Proof.
  intros V. rewrite plot_run, plot_constants_eq. unfold calculate_egfr.
  destruct (constants_of_valid creatinine sex race V) as [cs ->].
  exists cs. split; [reflexivity|]. split; [|reflexivity].
  cbn [fst]. apply in_or_app. right. apply in_or_app. right.
  apply in_or_app. right. left. reflexivity.
Qed.

Lemma formula_text_shows_constants_witness :
  exists cs,
    calculate_egfr_constants 0.5 "female" "african-american" = Ok cs
    /\ In (Figtext 0.5 0.001
             [ Lit "eGFR = "; Int (coeff cs); Lit " × ("; Fixed 2 0.5;
               Lit "/"; Fixed 2 (k cs); Lit ")^("; Fixed 3 (alpha cs);
               Lit ") × (0.993^"; Num 30; Lit ") × ";
               Fixed 3 (race_factor cs) ]
             true "center" 10)
          (fst (plot_kidney_disease_stages_with_correct_format
                  57.75 0.5 30 "female" "african-american" []))
    /\ calculate_egfr 0.5 30 "female" "african-american"
       = egfr_expression cs 0.5 30.
Proof.
  apply (formula_text_shows_constants 57.75 0.5 30 "female"
           "african-american").
  reflexivity.
Defined.

(* ===================================================================== *)
(** ** The script at the end of the file                                 *)
(* ===================================================================== *)

Lemma pow_lt_reg_l (n : nat) (x y : R) : 0 <= y -> x ^ n < y ^ n -> x < y.
Proof.
  intros Hy H. destruct (Rlt_le_dec x y) as [L|G]; [exact L|].
  exfalso. assert (y ^ n <= x ^ n) by (apply pow_incr; split; assumption).
  lra.
Qed.

Lemma Rpower_pow_nat (b e : R) (n : nat) :
  Rpower b e ^ n = Rpower b (e * INR n).
Proof.
  rewrite <- Rpower_pow by apply Rpower_pos. apply Rpower_mult.
Qed.

(** Bounds of a power with a rational exponent [- m / n], from powers with
    natural exponents. *)
Lemma Rpower_rational_upper (b e u : R) (m n : nat) :
  0 < b -> 0 <= u -> e * INR n = - INR m -> / b ^ m < u ^ n ->
  Rpower b e < u.
Proof.
  intros Hb Hu He H. apply (pow_lt_reg_l n); [assumption|].
  now rewrite Rpower_pow_nat, He, Rpower_Ropp, Rpower_pow.
Qed.

Lemma Rpower_rational_lower (b e l : R) (m n : nat) :
  0 < b -> e * INR n = - INR m -> l ^ n < / b ^ m ->
  l < Rpower b e.
Proof.
  intros Hb He H. apply (pow_lt_reg_l n); [left; apply Rpower_pos|].
  now rewrite Rpower_pow_nat, He, Rpower_Ropp, Rpower_pow.
Qed.

(** The power of the example run lies between 0.5585 and 0.5645. *)
Lemma example_power_bounds :
  0.5585 < Rpower (1.45 / 0.9) (-1.209) < 0.5645.
Proof.
  split.
  - apply Rlt_trans with (Rpower (1.45 / 0.9) (-1.22)).
    + apply (Rpower_rational_lower _ _ _ 61 50); [lra| |lra].
      rewrite !INR_IZR_INZ.
      change (Z.of_nat 50) with 50%Z. change (Z.of_nat 61) with 61%Z. lra.
    + apply Rpower_lt; lra.
  - apply Rlt_trans with (Rpower (1.45 / 0.9) (-1.2)).
    + apply Rpower_lt; lra.
    + apply (Rpower_rational_upper _ _ _ 6 5); [lra|lra| |lra].
      rewrite !INR_IZR_INZ.
      change (Z.of_nat 5) with 5%Z. change (Z.of_nat 6) with 6%Z. lra.
Qed.

(** The age factor of the example run lies between 0.7289 and 0.7290. *)
Lemma example_age_factor_bounds : 0.7289 < Rpower 0.993 45 < 0.7290.
Proof.
  assert (Rpower 0.993 45 = 0.993 ^ 45) as ->.
  { rewrite <- Rpower_pow by lra. f_equal. rewrite INR_IZR_INZ. reflexivity. }
  split; lra.
Qed.

(** X9: the script at the end of the file runs without raising, whatever
    the renderer would do with a complex value: [calculate_egfr] returns the
    real number 141 × (1.45/0.9)^(-1.209) × 0.993^45 × 1.0, which lies
    between 57 and 58.1, in the band of Stage 3a; the renderer then draws
    the six bands, the marker at that value, the formula with k = 0.9,
    alpha = -1.209, coeff = 141 and race_factor = 1.0, and shows the
    figure. *)
Theorem script_run (render_complex : R -> R -> plt unit) :
  let v := 141 * Rpower (1.45 / 0.9) (-1.209) * Rpower 0.993 45 * 1.0 in
  calculate_egfr 1.45 45 "male" "non-african-american" = Ok (PyFloat v)
  /\ script render_complex []
     = (band_commands ++ marker_commands v
          ++ closing_commands (Constants 0.9 (-1.209) 141 1.0) 1.45 45 "male",
        Ok tt)
  /\ 57 < v < 58.1
  /\ exists b, In b stage_band_table
               /\ label b = "Stage 3a: Mild-to-Moderate Reduction"
               /\ IZR (lower_bound b) <= v < IZR (upper_bound b).
Proof.
  intros v.
  assert (calculate_egfr 1.45 45 "male" "non-african-american"
          = Ok (PyFloat v)) as E.
  { rewrite calculate_egfr_valid by reflexivity.
    destruct (Req_dec_T 1.45 0); [lra|].
    change (eq_ignore_case "male" "male") with true.
    change (eq_ignore_case "non-african-american" "african-american")
      with false.
    unfold ckd_epi, principal_power, spec_alpha, spec_k, spec_coeff,
      spec_race_factor.
    destruct (Rlt_dec 0 (1.45 / 0.9)); [|lra].
    destruct (Rle_dec 1.45 0.9); [lra|].
    simpl. unfold v. do 2 f_equal. ring. }
  assert (57 < v < 58.1) as B.
  { pose proof example_power_bounds as [P1 P2].
    pose proof example_age_factor_bounds as [A1 A2].
    unfold v. set (p := Rpower (1.45 / 0.9) (-1.209)) in *.
    set (a := Rpower 0.993 45) in *. split; nra. }
  split; [exact E|]. split; [|split; [exact B|]].
  - unfold script. cbv zeta. unfold pbind, lift. rewrite E. cbn [render].
    rewrite plot_run, plot_constants_eq, constants_male by reflexivity.
    destruct (Rle_dec 1.45 0.9); [lra|]. reflexivity.
  - exists (Band "Stage 3a: Mild-to-Moderate Reduction" 45 60 "yellow").
    split; [simpl; tauto|]. split; [reflexivity|]. simpl. lra.
Qed.

(* ===================================================================== *)
(** ** The range of doubles                                              *)
(* ===================================================================== *)

Lemma huge_Rpower : huge = Rpower 2 1024.
Proof.
  unfold huge. rewrite <- Rpower_pow by lra. f_equal.
  rewrite INR_IZR_INZ. reflexivity.
Qed.

Lemma tiny_Rpower : tiny = Rpower 2 (-1075).
Proof.
  unfold tiny. replace (-1075) with (Ropp 1075) by lra.
  rewrite Rpower_Ropp, <- Rpower_pow by lra. do 2 f_equal.
  rewrite INR_IZR_INZ. reflexivity.
Qed.

Lemma huge_gt_1 : 1 < huge.
Proof.
  rewrite huge_Rpower, <- (Rpower_O 2) by lra. apply Rpower_lt; lra.
Qed.

Lemma tiny_pos : 0 < tiny.
Proof. rewrite tiny_Rpower. apply Rpower_pos. Qed.

Lemma tiny_lt_1 : tiny < 1.
Proof.
  rewrite tiny_Rpower, <- (Rpower_O 2) by lra. apply Rpower_lt; lra.
Qed.

(** Powers of 2 compare as their exponents. *)
Lemma Rpower_2_le (a b : R) : a <= b -> Rpower 2 a <= Rpower 2 b.
Proof. intros H. apply Rle_Rpower; lra. Qed.

Lemma flush_nonneg (v : R) : 0 <= v -> 0 <= flush v <= v.
Proof.
  intros H. unfold flush. destruct (Rle_dec (Rabs v) tiny); lra.
Qed.

Lemma flush_above (v : R) : tiny < v -> flush v = v.
Proof.
  intros H. unfold flush. pose proof tiny_pos.
  destruct (Rle_dec (Rabs v) tiny) as [L|]; [|reflexivity].
  rewrite Rabs_pos_eq in L; lra.
Qed.




(** A result from 0 and below the range limit is a finite double. *)
Lemma to_double_nonneg (v : R) :
  0 <= v < huge -> to_double v = Finite (flush v).
Proof.
  intros [H0 H1]. unfold to_double. pose proof huge_gt_1.
  destruct (Rle_dec huge v); [lra|]. destruct (Rle_dec v (- huge)); [lra|].
  reflexivity.
Qed.



Lemma ln_2_pos : 0 < ln 2.
Proof. rewrite <- ln_1. apply ln_increasing; lra. Qed.

Lemma ln_le (x y : R) : 0 < x -> x <= y -> ln x <= ln y.
Proof.
  intros Hx [H| ->]; [left; now apply ln_increasing|right; reflexivity].
Qed.

Lemma exp_le (x y : R) : x <= y -> exp x <= exp y.
Proof.
  intros [H| ->]; [left; now apply exp_increasing|right; reflexivity].
Qed.



Lemma Rpower_le_tiny (x y : R) : y * ln x <= -1075 * ln 2 -> Rpower x y <= tiny.
Proof.
  intros H. rewrite tiny_Rpower. unfold Rpower. now apply exp_le.
Qed.

Lemma Rpower_gt_tiny (x y : R) : -1075 * ln 2 < y * ln x -> tiny < Rpower x y.
Proof.
  intros H. rewrite tiny_Rpower. unfold Rpower. now apply exp_increasing.
Qed.

(** The logarithm of 0.993 lies between -ln 2 / 98 and -ln 2 / 99. *)
Lemma ln_0993_bounds : - ln 2 < 98 * ln 0.993 /\ 99 * ln 0.993 < - ln 2.
Proof.
  assert (ln (/ 2) = - ln 2) as E by (apply ln_Rinv; lra).
  split.
  - assert (ln (/ 2) < ln (0.993 ^ 98)) as H by (apply ln_increasing; lra).
    rewrite ln_pow, INR_IZR_INZ in H by lra.
    change (Z.of_nat 98) with 98%Z in H. lra.
  - assert (ln (0.993 ^ 99) < ln (/ 2)) as H by (apply ln_increasing; lra).
    rewrite ln_pow, INR_IZR_INZ in H by lra.
    change (Z.of_nat 99) with 99%Z in H. lra.
Qed.

(** The age factor [0.993 ** age]: at most 1 from age 0, inside the range
    of doubles from age -100000, beyond it from age -102000 down, above the
    smallest double up to age 100000. *)
Lemma age_factor_le_1 (age : R) : 0 <= age -> Rpower 0.993 age <= 1.
Proof.
  intros H. rewrite <- exp_0. unfold Rpower. apply exp_le.
  pose proof ln_0993_bounds. pose proof ln_2_pos. nra.
Qed.



Lemma age_factor_above_tiny (age : R) :
  age <= 100000 -> tiny < Rpower 0.993 age.
Proof.
  intros H. apply Rpower_gt_tiny.
  pose proof ln_0993_bounds. pose proof ln_2_pos. nra.
Qed.

Lemma age_factor_underflow (age : R) :
  107000 <= age -> Rpower 0.993 age <= tiny.
Proof.
  intros H. apply Rpower_le_tiny.
  pose proof ln_0993_bounds. pose proof ln_2_pos. nra.
Qed.

(** The logarithm of the smallest double. *)
Lemma ln_smallest_double : ln (/ 2 ^ 1074) = -1074 * ln 2.
Proof.
  rewrite ln_Rinv by (apply pow_lt; lra).
  rewrite ln_pow, INR_IZR_INZ by lra. change (Z.of_nat 1074) with 1074%Z. lra.
Qed.


(** The constants of a valid sex, in the words of the specification. *)
Lemma constants_spec (creatinine : R) (sex race : string) :
  valid_sex sex = true ->
  calculate_egfr_constants creatinine sex race
  = Ok (Constants (spec_k (eq_ignore_case sex "male"))
          (spec_alpha (eq_ignore_case sex "male") creatinine)
          (if eq_ignore_case sex "male" then 141 else 144)
          (spec_race_factor (eq_ignore_case race "african-american"))).
Proof.
  unfold valid_sex. intros V. destruct (eq_ignore_case sex "male") eqn:M.
  - now rewrite constants_male.
  - now rewrite constants_female.
Qed.

Lemma spec_coeff_IZR (male : bool) :
  IZR (if male then 141 else 144) = spec_coeff male.
Proof. destruct male; reflexivity. Qed.

Lemma spec_coeff_bounds (male : bool) : 141 <= spec_coeff male <= 144.
Proof. destruct male; simpl; lra. Qed.

Lemma spec_k_bounds (male : bool) : 0.7 <= spec_k male <= 0.9.
Proof. destruct male; simpl; lra. Qed.

Lemma spec_race_factor_bounds (african_american : bool) :
  1 <= spec_race_factor african_american <= 1.159.
Proof. destruct african_american; simpl; lra. Qed.

(** The first power of the formula, for a creatinine that is at least the
    smallest double, is at most [2^537]. *)
Lemma first_power_bound (male : bool) (creatinine : R) :
  / 2 ^ 1074 <= creatinine ->
  Rpower (creatinine / spec_k male) (spec_alpha male creatinine) <= 2 ^ 537.
Proof.
  intros Hc. pose proof (spec_k_bounds male) as Hk.
  assert (0 < / 2 ^ 1074) as Hs by (apply Rinv_0_lt_compat, pow_lt; lra).
  assert (creatinine <= creatinine / spec_k male) as Hq.
  { apply (Rmult_le_reg_r (spec_k male)); [lra|].
    unfold Rdiv. rewrite Rmult_assoc, Rinv_l by lra. nra. }
  assert (2 ^ 537 = Rpower 2 537) as ->.
  { rewrite <- Rpower_pow by lra. f_equal. rewrite INR_IZR_INZ. reflexivity. }
  unfold Rpower. apply exp_le.
  assert (ln (/ 2 ^ 1074) <= ln (creatinine / spec_k male)) as H1
      by (apply ln_le; lra).
  rewrite ln_smallest_double in H1. pose proof ln_2_pos.
  unfold spec_alpha.
  destruct (Rle_dec creatinine (spec_k male)) as [L|G].
  - destruct male; nra.
  - assert (0 < ln (creatinine / spec_k male)).
    { rewrite <- ln_1. apply ln_increasing; [lra|].
      apply (Rmult_lt_reg_r (spec_k male)); [lra|].
      unfold Rdiv. rewrite Rmult_assoc, Rinv_l by lra. lra. }
    nra.
Qed.

Lemma pow_537_small : 144 * 2 * 2 ^ 537 < huge.
Proof. unfold huge. lra. Qed.

(** The three products of line 26 on finite doubles that are not negative:
    no product overflows, each is flushed. *)
Lemma dnum_mul_chain_finite (c p a f : R) :
  0 <= c <= 144 -> 0 <= p <= 2 ^ 537 -> 0 <= a <= 1 -> 0 <= f <= 2 ->
  dnum_mul (dnum_mul (dnum_mul (DFloat (Finite c)) (DFloat (Finite p)))
                     (DFloat (Finite a)))
           (DFloat (Finite f))
  = DFloat (Finite (flush (flush (flush (c * p) * a) * f))).
Proof.
  intros Hc Hp Ha Hf. pose proof pow_537_small as B.
  assert (0 <= c * p <= 144 * 2 ^ 537) as H1 by nra.
  pose proof (flush_nonneg (c * p) (proj1 H1)) as F1.
  assert (0 <= flush (c * p) * a <= 144 * 2 ^ 537) as H2 by nra.
  pose proof (flush_nonneg _ (proj1 H2)) as F2.
  assert (0 <= flush (flush (c * p) * a) * f <= 144 * 2 * 2 ^ 537) as H3
      by nra.
  cbn [dnum_mul double_mul].
  rewrite (to_double_nonneg (c * p)) by lra. cbn [double_mul].
  rewrite (to_double_nonneg (flush (c * p) * a)) by lra. cbn [double_mul].
  rewrite (to_double_nonneg (flush (flush (c * p) * a) * f)) by lra.
  reflexivity.
Qed.

(** The first power over doubles, for a creatinine that is at least the
    smallest double. *)
Lemma first_power_double (male : bool) (creatinine : R) :
  / 2 ^ 1074 <= creatinine ->
  rbind (float_div creatinine (spec_k male))
        (fun q => float_pow q (spec_alpha male creatinine))
  = Ok (DFloat (Finite (power_double male creatinine))).
Proof.
  intros Hc. pose proof (spec_k_bounds male) as Hk.
  pose proof (spec_alpha_neg male creatinine) as Ha.
  assert (0 < / 2 ^ 1074) as Hs by (apply Rinv_0_lt_compat, pow_lt; lra).
  assert (/ 2 ^ 1074 = 2 * tiny) as Ht.
  { unfold tiny. replace (2 ^ 1075) with (2 * 2 ^ 1074) by (simpl; ring).
    field; apply pow_nonzero; lra. }
  assert (creatinine <= creatinine / spec_k male) as Hq.
  { apply (Rmult_le_reg_r (spec_k male)); [lra|].
    unfold Rdiv. rewrite Rmult_assoc, Rinv_l by lra. nra. }
  pose proof tiny_pos as Htp. pose proof huge_gt_1 as Hh.
  unfold float_div, power_double.
  destruct (Req_dec_T (spec_k male) 0); [lra|]. cbn [rbind].
  unfold to_double, float_pow.
  destruct (Req_dec_T (spec_alpha male creatinine) 0); [lra|].
  destruct (Rle_dec huge (creatinine / spec_k male)) as [O|NO].
  - destruct (Rlt_dec 0 (spec_alpha male creatinine)); [lra|reflexivity].
  - destruct (Rle_dec (creatinine / spec_k male) (- huge)); [lra|].
    rewrite flush_above by lra.
    destruct (Req_dec_T (creatinine / spec_k male) 0); [lra|].
    destruct (Rlt_dec (creatinine / spec_k male) 0); [lra|].
    unfold pow_result.
    pose proof (first_power_bound male creatinine Hc) as Hb.
    pose proof (Rpower_pos (creatinine / spec_k male)
                  (spec_alpha male creatinine)) as Hp.
    pose proof pow_537_small. assert (0 < 2 ^ 537) by (apply pow_lt; lra).
    rewrite to_double_nonneg by lra. reflexivity.
Qed.

(** The age factor over doubles, from age 0. *)
Lemma age_factor_double (age : R) :
  0 <= age ->
  float_pow (Finite 0.993) age
  = Ok (DFloat (Finite (flush (Rpower 0.993 age)))).
Proof.
  intros Ha. pose proof huge_gt_1. pose proof tiny_lt_1.
  unfold float_pow. destruct (Req_dec_T age 0) as [->|N].
  - rewrite Rpower_O, flush_above by lra. reflexivity.
  - destruct (Req_dec_T 0.993 0); [lra|]. destruct (Rlt_dec 0.993 0); [lra|].
    unfold pow_result. pose proof (age_factor_le_1 age Ha).
    pose proof (Rpower_pos 0.993 age).
    rewrite to_double_nonneg by lra. reflexivity.
Qed.

Lemma power_double_bounds (male : bool) (creatinine : R) :
  / 2 ^ 1074 <= creatinine -> 0 <= power_double male creatinine <= 2 ^ 537.
Proof.
  intros Hc. unfold power_double.
  assert (0 < 2 ^ 537) by (apply pow_lt; lra).
  destruct (Rle_dec huge (creatinine / spec_k male)); [lra|].
  pose proof (first_power_bound male creatinine Hc).
  pose proof (Rpower_pos (creatinine / spec_k male)
                (spec_alpha male creatinine)) as Hp.
  pose proof (flush_nonneg _ (Rlt_le _ _ Hp)). lra.
Qed.

(** [calculate_egfr] over doubles for a valid sex, a creatinine that is at
    least the smallest double and an age from 0. *)
Lemma calculate_egfr_double_positive (creatinine age : R)
    (sex race : string) :
  valid_sex sex = true -> / 2 ^ 1074 <= creatinine -> 0 <= age ->
  calculate_egfr_double creatinine age sex race
  = Ok (DFloat (Finite (ckd_epi_double (eq_ignore_case sex "male")
                          (eq_ignore_case race "african-american")
                          creatinine age))).
Proof.
  intros V Hc Ha. unfold calculate_egfr_double.
  rewrite constants_spec by assumption. cbn [rbind].
  set (male := eq_ignore_case sex "male").
  set (aa := eq_ignore_case race "african-american").
  unfold egfr_expression_double. cbn [k alpha coeff race_factor].
  pose proof (first_power_double male creatinine Hc) as P.
  destruct (float_div creatinine (spec_k male)) as [q|e];
    cbn [rbind] in P |- *; [|discriminate]. rewrite P. cbn [rbind].
  rewrite age_factor_double by assumption. cbn [rbind].
  rewrite spec_coeff_IZR.
  pose proof (spec_coeff_bounds male). pose proof (spec_race_factor_bounds aa).
  pose proof (power_double_bounds male creatinine Hc).
  pose proof (age_factor_le_1 age Ha). pose proof (Rpower_pos 0.993 age) as Hp.
  pose proof (flush_nonneg _ (Rlt_le _ _ Hp)).
  rewrite dnum_mul_chain_finite by lra. reflexivity.
Qed.



(** A quotient beyond the range makes the first power underflow. *)
Lemma huge_quotient_underflows (male : bool) (creatinine : R) :
  huge <= creatinine / spec_k male ->
  Rpower (creatinine / spec_k male) (spec_alpha male creatinine) <= tiny.
Proof.
  intros H. pose proof (spec_k_bounds male) as Hk. pose proof huge_gt_1 as Hh.
  assert (spec_k male < creatinine) as G.
  { apply (Rmult_lt_reg_r (/ spec_k male)).
    - apply Rinv_0_lt_compat. lra.
    - rewrite Rinv_r by lra. fold (creatinine / spec_k male). lra. }
  apply Rpower_le_tiny.
  assert (ln huge <= ln (creatinine / spec_k male)) as L
      by (apply ln_le; lra).
  rewrite huge_Rpower in L. unfold Rpower in L. rewrite ln_exp in L.
  unfold spec_alpha. destruct (Rle_dec creatinine (spec_k male)); [lra|].
  pose proof ln_2_pos. nra.
Qed.

(** Over doubles the value is above 0 exactly when nothing underflows, and
    it is then the real value of the formula. *)
Lemma ckd_epi_double_exact (male african_american : bool)
    (creatinine age : R) :
  no_underflow male creatinine age ->
  ckd_epi_double male african_american creatinine age
  = ckd_epi_real male african_american creatinine age
  /\ 0 < ckd_epi_double male african_american creatinine age.
Proof.
  intros (HP & HA & HPA). pose proof tiny_pos as Ht.
  pose proof (spec_coeff_bounds male) as Hco.
  pose proof (spec_race_factor_bounds african_american) as Hrf.
  set (P := Rpower (creatinine / spec_k male) (spec_alpha male creatinine))
    in *.
  set (A := Rpower 0.993 age) in *.
  assert (power_double male creatinine = P) as EP.
  { unfold power_double.
    destruct (Rle_dec huge (creatinine / spec_k male)) as [O|].
    - pose proof (huge_quotient_underflows male creatinine O). fold P in H. lra.
    - now apply flush_above. }
  assert (0 < P * A) by nra.
  unfold ckd_epi_double, ckd_epi_real. fold P A. rewrite EP.
  rewrite (flush_above (spec_coeff male * P)) by nra.
  rewrite (flush_above A) by assumption.
  rewrite (flush_above (spec_coeff male * P * A)) by assumption.
  rewrite flush_above by nra. split; [reflexivity|nra].
Qed.






(* ===================================================================== *)
(** ** The range and the order of the results                            *)
(* ===================================================================== *)







(* ===================================================================== *)
(** ** The errors of [calculate_egfr] over doubles                       *)
(* ===================================================================== *)















(** Where nothing underflows the two levels of the estimator return the
    same number, the real value of the formula. *)
Lemma double_agrees_in_range (creatinine age : R) (sex race : string) :
  valid_sex sex = true -> / 2 ^ 1074 <= creatinine -> 0 <= age ->
  no_underflow (eq_ignore_case sex "male") creatinine age ->
  let v := ckd_epi_real (eq_ignore_case sex "male")
             (eq_ignore_case race "african-american") creatinine age in
  calculate_egfr creatinine age sex race = Ok (PyFloat v)
  /\ calculate_egfr_double creatinine age sex race = Ok (DFloat (Finite v)).
Proof.
  intros V Hc Ha N v.
  assert (0 < / 2 ^ 1074) as Hs by (apply Rinv_0_lt_compat, pow_lt; lra).
  split.
  - rewrite calculate_egfr_valid by assumption.
    destruct (Req_dec_T creatinine 0); [lra|].
    unfold ckd_epi, principal_power.
    pose proof (spec_k_pos (eq_ignore_case sex "male")) as Hk.
    destruct (Rlt_dec 0 (creatinine / spec_k (eq_ignore_case sex "male")))
      as [P|NP].
    + simpl. unfold v, ckd_epi_real. do 2 f_equal. ring.
    + exfalso. apply NP. apply Rdiv_lt_0_compat; lra.
  - rewrite calculate_egfr_double_positive by assumption.
    unfold v. now rewrite (proj1 (ckd_epi_double_exact _ _ _ _ N)).
Qed.
